(** * ArtLens: the embedding module of the scanner front end

    A shallow embedding of [frontend/src/js/embedding.js]: the module state
    ([embedModel], [runtimeDim]), model initialisation, the feature
    extraction of [embedFromCanvas] followed by its in-place L2
    normalisation, and the similarity scorer [cosineSim]; then [clamp] and
    the crop rectangle of [cropToCanvasFromVideo], and [BACKEND_URL] and
    [loadServerConfig] of [frontend/src/js/constants.js].

    JavaScript numbers are kept abstract behind the class [Number], with two
    instances: IEEE binary64 with Float32Array stores rounded to binary32
    (what the browser runs, and what the examples evaluate), and the real
    numbers (the exact arithmetic in which the norm and dot product
    identities are stated). *)

From Stdlib Require Import Reals Lra ZArith QArith Floats.
From stdpp Require Import base list strings gmap.

(** ** Numbers *)

(** The arithmetic the module uses, one field per JavaScript operator. *)
Class Number (F : Type) : Type := {
  num_zero : F;                 (* the literals 0 and 0.0 *)
  num_one : F;                  (* the literals 1 and 1.0 *)
  num_neg : F -> F;             (* unary minus, as in -1 *)
  num_add : F -> F -> F;        (* + *)
  num_mul : F -> F -> F;        (* * *)
  num_div : F -> F -> F;        (* / *)
  num_sqrt : F -> F;            (* Math.sqrt *)
  num_gt : F -> F -> bool;      (* > *)
  num_sne : F -> F -> bool;     (* !== on two numbers *)
  num_nan : F;                  (* ToNumber(undefined), an out-of-range read *)
  num_fround : F -> F           (* the rounding of a store into a Float32Array *)
}.

Declare Scope js_scope.
Delimit Scope js_scope with js.
Notation "0" := num_zero : js_scope.
Notation "1" := num_one : js_scope.
Infix "+" := num_add : js_scope.
Infix "*" := num_mul : js_scope.
Infix "/" := num_div : js_scope.
Notation "x >? y" := (num_gt x y) (at level 70, no associativity) : js_scope.
Notation "x !== y" := (num_sne x y) (at level 70, no associativity) : js_scope.

(** *** IEEE binary64, the numbers of the JavaScript engine *)

Module Binary64.

(** Round a binary64 value to the nearest binary32 value, ties to even:
    the conversion applied when a number is written into a Float32Array. *)
Definition round32 (x : spec_float) : spec_float :=
  match x with
  | S754_finite s m e => binary_round 24 128 s m e
  | _ => x
  end.

Definition fround (x : float) : float := SF2Prim (round32 (Prim2SF x)).

#[global] Instance number : Number float := {|
  num_zero := 0%float;
  num_one := 1%float;
  num_neg := PrimFloat.opp;
  num_add := PrimFloat.add;
  num_mul := PrimFloat.mul;
  num_div := PrimFloat.div;
  num_sqrt := PrimFloat.sqrt;
  num_gt x y := PrimFloat.ltb y x;
  num_sne x y := negb (PrimFloat.eqb x y);
  num_nan := PrimFloat.nan;
  num_fround := fround
|}.

End Binary64.

(** *** Exact arithmetic *)

Module Exact.

(** Real numbers: no rounding, so a Float32Array store keeps the value.
    There is no NaN among the reals; [num_nan] is only the value of an
    out-of-range read, which the loops of this module never perform. *)
#[global] Instance number : Number R := {|
  num_zero := 0%R;
  num_one := 1%R;
  num_neg := Ropp;
  num_add := Rplus;
  num_mul := Rmult;
  num_div := Rdiv;
  num_sqrt := R_sqrt.sqrt;
  num_gt x y := if Rlt_dec y x then true else false;
  num_sne x y := if Req_dec_T x y then false else true;
  num_nan := 0%R;
  num_fround x := x
|}.

End Exact.

(** ** Completions and the module monad *)

(** A thrown value: [new Error(message)], or the TypeError of a property
    read on [null]. *)
Inductive JsError : Type :=
  | Error (message : string)
  | TypeError (message : string).

(** How a call ends: it returns a value or throws (for an [async] function:
    its promise is fulfilled or rejected). *)
Inductive Completion (A : Type) : Type :=
  | Normal (a : A)
  | Throw (e : JsError).
Arguments Normal {A} a.
Arguments Throw {A} e.

(** A canvas: its size and its RGBA bytes. *)
Record Canvas : Type := { can_width : nat; can_height : nat; can_data : list N }.

(** An image tensor handed to the network: the pixels of a canvas
    ([tf.browser.fromPixels]) or the all-zero warm-up tensor
    ([tf.zeros(shape)]). *)
Inductive Image : Type :=
  | FromPixels (can : Canvas)
  | Zeros (shape : list nat).

Section Embedding.

Context {F : Type} `{Number F}.
Local Open Scope js_scope.

(** *** The external collaborators *)

(** A loaded MobileNet: [infer(x, true)] gives the embedding of an image or
    throws. The tensor is kept as its flat data: what [flatten().dataSync()]
    reads back, and whose length is [size]. *)
Record Model : Type := { infer : Image -> Completion (list F) }.

(** The [tf] global: the outcomes of the calls the module makes on it. *)
Record TfLib : Type := {
  tf_setBackend : string -> Completion bool;
  tf_ready : Completion unit;
  tf_fromPixels : Canvas -> Completion Image
}.

(** The [mobilenet] global: [load({version: 2, alpha: 1.0})]. *)
Record MobilenetLib : Type := { mobilenet_load : Completion Model }.

(** The globals the module reads and its two module-level variables. *)
Record World : Type := {
  g_tf : option TfLib;                (* globalThis.tf *)
  g_mobilenet : option MobilenetLib;  (* globalThis.mobilenet *)
  embedModel : option Model;          (* let embedModel = null *)
  runtimeDim : option nat             (* let runtimeDim = null *)
}.

Definition set_embedModel (m : Model) (w : World) : World :=
  {| g_tf := g_tf w; g_mobilenet := g_mobilenet w;
     embedModel := Some m; runtimeDim := runtimeDim w |}.

Definition set_runtimeDim (d : nat) (w : World) : World :=
  {| g_tf := g_tf w; g_mobilenet := g_mobilenet w;
     embedModel := embedModel w; runtimeDim := Some d |}.

(** The module as first evaluated, under the given globals. *)
Definition fresh (tf : option TfLib) (mn : option MobilenetLib) : World :=
  {| g_tf := tf; g_mobilenet := mn; embedModel := None; runtimeDim := None |}.

(** *** State and exceptions *)

Definition M (A : Type) : Type := World -> Completion A * World.

Definition ret {A} (a : A) : M A := fun w => (Normal a, w).
Definition throw {A} (e : JsError) : M A := fun w => (Throw e, w).
Definition bind {A B} (m : M A) (k : A -> M B) : M B :=
  fun w => match m w with
           | (Normal a, w') => k a w'
           | (Throw e, w') => (Throw e, w')
           end.
(** [try { m } catch (e) { h e }]. *)
Definition try_catch {A} (m : M A) (h : JsError -> M A) : M A :=
  fun w => match m w with
           | (Normal a, w') => (Normal a, w')
           | (Throw e, w') => h e w'
           end.
Definition gets {A} (f : World -> A) : M A := fun w => (Normal (f w), w).
Definition modify (f : World -> World) : M unit := fun w => (Normal tt, f w).
(** The outcome of a call into a collaborator. *)
Definition call {A} (c : Completion A) : M A := fun w => (c, w).

Notation "'let*' x := m 'in' k" := (bind m (fun x => k))
  (at level 10, x name, m at level 100, k at level 200).
Notation "'do' m 'then' k" := (bind m (fun _ => k))
  (at level 10, m at level 100, k at level 200).

(** [for (let i = 0; i < n; i++) s = body i s]. *)
Definition for_upto {S : Type} (n : nat) (body : nat -> S -> S) (s : S) : S :=
  fold_left (fun s i => body i s) (seq 0 n) s.

(** [v[i]] used as a number. *)
Definition read (v : list F) (i : nat) : F := default num_nan (v !! i).

(** *** embedding.js, lines 12-55: loading the model *)

(** Lines 22-26, the body shared by the two warm-ups: infer on a zero
    image and record the size of the embedding. *)
Definition warmup (m : Model) : M unit :=
  let* emb := call (infer m (Zeros [224; 224; 3])) in
  modify (set_runtimeDim (length emb)).

Definition initEmbeddingModel : M unit :=
  let* tf := gets g_tf in
  let* mobilenetGlobal := gets g_mobilenet in
  match tf with
  | None => throw (Error "TensorFlow.js non caricato")
  | Some tf =>
      do try_catch (do call (tf_setBackend tf "webgl") then ret tt)
                   (fun _ => ret tt) then
      do call (tf_ready tf) then
      match mobilenetGlobal with
      | None => throw (Error "MobileNet non caricato")
      | Some mn =>
          let* m := call (mobilenet_load mn) in
          do modify (set_embedModel m) then
          try_catch (let* em := gets embedModel in
                     match em with
                     | Some em => warmup em
                     | None => throw (TypeError "embedModel is null")
                     end)
                    (fun _ => ret tt)
      end
  end.

Definition hasEmbedModel : M bool :=
  let* em := gets embedModel in ret (bool_decide (is_Some em)).

Definition getRuntimeDim : M (option nat) := gets runtimeDim.

Definition ensureRuntimeDim : M unit :=
  try_catch
    (let* tf := gets g_tf in
     let* em := gets embedModel in
     match tf, em with
     | Some _, Some em =>
         let* rd := gets runtimeDim in
         match rd with
         | None => warmup em
         | Some _ => ret tt
         end
     | _, _ => ret tt
     end)
    (fun _ => ret tt).

(** *** embedding.js, lines 69-85: embedFromCanvas *)

(** Lines 73-77: the pixels of the canvas through the network, read back
    as a Float32Array. *)
Definition extract (tf : TfLib) (m : Model) (can : Canvas) : Completion (list F) :=
  match tf_fromPixels tf can with
  | Normal input => infer m input
  | Throw e => Throw e
  end.

(** Lines 78-79: [sum] after the first loop. *)
Definition sum_squares (out : list F) : F :=
  for_upto (length out) (fun i sum => sum + read out i * read out i) 0.

(** Line 80. *)
Definition inv_norm (sum : F) : F :=
  if sum >? 0 then 1 / num_sqrt sum else 1.

(** Line 82, one iteration: [out[i] *= inv]. A write past the end of a
    typed array is dropped. *)
Definition scale_at (inv : F) (i : nat) (out : list F) : list F :=
  <[i := num_fround (read out i * inv)]> out.

(** Lines 78-84: the normalisation of [out], in place. *)
Definition normalizeInPlace (out : list F) : list F :=
  let sum := sum_squares out in
  let inv := inv_norm sum in
  if inv !== 1 then for_upto (length out) (scale_at inv) out else out.

Definition embedFromCanvas (can : Canvas) : M (list F) :=
  let* tf := gets g_tf in
  let* em := gets embedModel in
  match tf, em with
  | Some tf, Some em =>
      let* out := call (extract tf em can) in
      ret (normalizeInPlace out)
  | _, _ => throw (Error "Embedding model non disponibile")
  end.

(** *** embedding.js, lines 87-92: cosineSim *)

(** An argument of [cosineSim]: [null], [undefined], or a vector (an
    array of numbers or a Float32Array). *)
Inductive JsArg : Type :=
  | JsNull
  | JsUndefined
  | JsVec (v : list F).

(** [!x]: [null] and [undefined] are falsy, every array is truthy. *)
Definition falsy (x : JsArg) : bool :=
  match x with
  | JsVec _ => false
  | _ => true
  end.

(** [x.length], read only after both arguments were seen truthy. *)
Definition arg_length (x : JsArg) : nat :=
  match x with
  | JsVec v => length v
  | _ => O
  end.

Definition arg_read (x : JsArg) (i : nat) : F :=
  match x with
  | JsVec v => read v i
  | _ => num_nan
  end.

Definition cosineSim (vecA vecB : JsArg) : M F :=
  if falsy vecA || falsy vecB || negb (arg_length vecA =? arg_length vecB)%nat
  then ret (num_neg 1)
  else ret (for_upto (arg_length vecA)
              (fun i dot => dot + arg_read vecA i * arg_read vecB i) 0).

(** *** Vocabulary of the statements *)

(** The inputs line 88 rejects: an argument is [null] or [undefined], or
    the two lengths differ. *)
Definition invalid (vecA vecB : JsArg) : Prop :=
  match vecA, vecB with
  | JsVec a, JsVec b => length a <> length b
  | _, _ => True
  end.

(** What the feature extraction of [embedFromCanvas] hands to the
    normalisation: the guard of line 71 passes and lines 73-77 return [v]. *)
Definition raw_features (w : World) (can : Canvas) (v : list F) : Prop :=
  exists tf em,
    g_tf w = Some tf /\ embedModel w = Some em /\
    extract tf em can = Normal v.

(** The page loads or drops the [tf] and [mobilenet] scripts. *)
Definition set_globals (tf : option TfLib) (mn : option MobilenetLib)
           (w : World) : World :=
  {| g_tf := tf; g_mobilenet := mn;
     embedModel := embedModel w; runtimeDim := runtimeDim w |}.

Definition is_normal {A} (c : Completion A) : bool :=
  match c with
  | Normal _ => true
  | Throw _ => false
  end.

(** One thing that happens to the module: the globals change, or one of
    its exported functions that touch the model runs to its end. The flag
    says whether the step was a call of [initEmbeddingModel] that
    returned normally. *)
Inductive Step : World -> bool -> World -> Prop :=
  | step_globals w tf mn :
      Step w false (set_globals tf mn w)
  | step_init w r w' :
      initEmbeddingModel w = (r, w') -> Step w (is_normal r) w'
  | step_ensure w r w' :
      ensureRuntimeDim w = (r, w') -> Step w false w'
  | step_embed can w r w' :
      embedFromCanvas can w = (r, w') -> Step w false w'
  | step_cosine vecA vecB w r w' :
      cosineSim vecA vecB w = (r, w') -> Step w false w'
  | step_has w r w' :
      hasEmbedModel w = (r, w') -> Step w false w'
  | step_dim w r w' :
      getRuntimeDim w = (r, w') -> Step w false w'.

(** [History loaded w]: the module, freshly evaluated, reaches [w] by such
    steps, and [loaded] says whether some call of [initEmbeddingModel]
    among them returned normally. *)
Inductive History : bool -> World -> Prop :=
  | history_fresh tf mn :
      History false (fresh tf mn)
  | history_step loaded w b w' :
      History loaded w -> Step w b w' -> History (loaded || b) w'.

End Embedding.

Arguments Model : clear implicits.
Arguments MobilenetLib : clear implicits.
Arguments World : clear implicits.
Arguments JsArg : clear implicits.
Arguments M : clear implicits.

(** *** Norms and dot products of the specification *)

(** The dot product, [Σᵢ a[i]·b[i]]. *)
Fixpoint dot_product (a b : list R) : R :=
  match a, b with
  | x :: a', y :: b' => x * y + dot_product a' b'
  | _, _ => 0
  end%R.

(** The L2 norm, [‖v‖₂]. *)
Definition norm2 (v : list R) : R := R_sqrt.sqrt (dot_product v v).

(** The dot product as a machine accumulates it: from [dot], in index
    order, every product and every partial sum in the arithmetic of the
    numbers, [((dot + a[0]·b[0]) + a[1]·b[1]) + ...]. *)
Fixpoint accumulate_dot {F : Type} `{Number F} (dot : F) (a b : list F) : F :=
  match a, b with
  | x :: a', y :: b' => accumulate_dot (dot + x * y)%js a' b'
  | _, _ => dot
  end.

(** The rational number a double stands for; none for NaN and the
    infinities. *)
Definition exact_value (x : float) : option Q :=
  match Prim2SF x with
  | S754_zero _ => Some 0%Q
  | S754_finite s m e =>
      Some (Qred ((if s then -1 else 1) * inject_Z (Zpos m) * Qpower 2 e))
  | _ => None
  end.

(** The dot product [Σᵢ a[i]·b[i]] of two vectors of doubles, computed
    without rounding. *)
Fixpoint exact_dot (a b : list float) : option Q :=
  match a, b with
  | x :: a', y :: b' =>
      match exact_value x, exact_value y, exact_dot a' b' with
      | Some p, Some q, Some r => Some (Qred (p * q + r))
      | _, _, _ => None
      end
  | _, _ => Some 0%Q
  end.

(** *** Sample worlds *)

Module Sample.

Definition can : Canvas :=
  {| can_width := 1; can_height := 1; can_data := [255; 0; 0; 255]%N |}.

(** A [tf] whose calls all succeed. *)
Definition tf : TfLib :=
  {| tf_setBackend := fun _ => Normal true;
     tf_ready := Normal tt;
     tf_fromPixels := fun c => Normal (FromPixels c) |}.

(** A network that answers every image with the same embedding. *)
Definition model {F : Type} (v : list F) : Model F :=
  {| infer := fun _ => Normal v |}.

(** The module after a successful load of [model v]. *)
Definition loaded {F : Type} (v : list F) : World F :=
  {| g_tf := Some tf; g_mobilenet := Some {| mobilenet_load := Normal (model v) |};
     embedModel := Some (model v); runtimeDim := Some (length v) |}.

(** The same model under other globals and another [runtimeDim]. *)
Definition loaded' {F : Type} (v : list F) : World F :=
  {| g_tf := Some tf; g_mobilenet := None;
     embedModel := Some (model v); runtimeDim := None |}.

End Sample.

(** The input of both warm-ups. *)
Definition zero_image : Image := Zeros [224; 224; 3]%nat.

(** ** embedding.js, lines 57-67: cropping the video frame *)

(** The further arithmetic of the crop. *)
Class CropNumber (F : Type) : Type := {
  num_sub : F -> F -> F;        (* binary - *)
  math_max : F -> F -> F;       (* Math.max of two numbers *)
  math_min : F -> F -> F;       (* Math.min of two numbers *)
  num_of_N : N -> F             (* an integer literal or an unsigned long of
                                   the DOM, as a number *)
}.

Module Binary64Crop.

(** [Math.max]: NaN if either argument is, and [+0] above [-0]. *)
Definition max (x y : float) : float :=
  if is_nan x || is_nan y then nan
  else if (x <? y)%float then y
  else if (y <? x)%float then x
  else if get_sign x then y else x.

(** [Math.min]: NaN if either argument is, and [-0] below [+0]. *)
Definition min (x y : float) : float :=
  if is_nan x || is_nan y then nan
  else if (x <? y)%float then x
  else if (y <? x)%float then y
  else if get_sign x then x else y.

#[global] Instance number : CropNumber float := {|
  num_sub := PrimFloat.sub;
  math_max := max;
  math_min := min;
  num_of_N n := PrimFloat.of_uint63 (Uint63.of_Z (Z.of_N n))
|}.

End Binary64Crop.

Module ExactCrop.

#[global] Instance number : CropNumber R := {|
  num_sub := Rminus;
  math_max := Rmax;
  math_min := Rmin;
  num_of_N n := IZR (Z.of_N n)
|}.

End ExactCrop.

(** constants.js, line 8. *)
Definition CROP_SIZE : N := 224.

Section Crop.

Context {F : Type} `{Number F} `{CropNumber F}.

(** Line 57. *)
Definition clamp (v min max : F) : F := math_max min (math_min max v).

(** A detection box, as the detector reports it. *)
Record Box : Type := { originX : F; originY : F; width : F; height : F }.

(** [videoEl], by the two properties the module reads. *)
Record VideoEl : Type := { videoWidth : N; videoHeight : N }.

(** The calls made on [cropCtx], the 2D context of the offscreen canvas. *)
Inductive CtxCall : Type :=
  | ClearRect (x y w h : F)
  | DrawImage (sx sy sw sh dx dy dw dh : F).

(** Lines 60-63: the source rectangle [vx, vy, vw, vh]. *)
Record SrcRect : Type := { vx : F; vy : F; vw : F; vh : F }.

Definition source_rect (videoEl : VideoEl) (box : Box) : SrcRect :=
  let vx := clamp (originX box) num_zero (num_of_N (videoWidth videoEl)) in
  let vy := clamp (originY box) num_zero (num_of_N (videoHeight videoEl)) in
  let vw := clamp (width box) num_one
                  (num_sub (num_of_N (videoWidth videoEl)) vx) in
  let vh := clamp (height box) num_one
                  (num_sub (num_of_N (videoHeight videoEl)) vy) in
  {| vx := vx; vy := vy; vw := vw; vh := vh |}.

(** Lines 59-67. The value returned is always the one offscreen canvas of
    the module; what the call does to it is the two calls it adds to the
    log of the context. *)
Definition cropToCanvasFromVideo (videoEl : VideoEl) (box : Box)
           (ctx : list CtxCall) : list CtxCall :=
  let r := source_rect videoEl box in
  ctx ++ [ClearRect num_zero num_zero (num_of_N CROP_SIZE) (num_of_N CROP_SIZE);
          DrawImage (vx r) (vy r) (vw r) (vh r)
                    num_zero num_zero (num_of_N CROP_SIZE) (num_of_N CROP_SIZE)].

End Crop.

Arguments Box : clear implicits.
Arguments CtxCall : clear implicits.
Arguments SrcRect : clear implicits.

(** ** constants.js *)

(** A JavaScript value as [JSON.parse] builds it, and [undefined]. *)
#[warnings="-register-all"]
Inductive JsValue : Type :=
  | VUndefined
  | VNull
  | VBool (b : bool)
  | VNum (x : float)
  | VStr (s : string)
  | VArr (items : list JsValue)
  | VObj (fields : gmap string JsValue).

(** [v.key] for a key that no prototype defines: a TypeError on [null] and
    [undefined], the own property of an object, [undefined] otherwise. *)
Definition get_prop (v : JsValue) (key : string) : Completion JsValue :=
  match v with
  | VUndefined | VNull => Throw (TypeError "Cannot read properties")
  | VObj fields => Normal (default VUndefined (fields !! key))
  | _ => Normal VUndefined
  end.

(** [v !== undefined]. *)
Definition defined (v : JsValue) : bool :=
  match v with
  | VUndefined => false
  | _ => true
  end.

(** Line 5: [BACKEND_URL], from [window.BACKEND_URL] where there is a
    [window] ([None] where there is none; the property is a string or
    [undefined]) and [location.origin]. *)
Definition BACKEND_URL (window : option (option string))
           (origin : string) : string :=
  match window with
  | Some (Some url) => if bool_decide (url = "") then origin +:+ "/api" else url
  | _ => origin +:+ "/api"
  end.

(** The two exported [let] bindings of lines 18-19. *)
Record Settings : Type := { RADIUS_KM : JsValue; CITY_NAME : JsValue }.

(** Lines 18-19, with the bytes of the UTF-8 source text. *)
Definition fallback : Settings :=
  {| RADIUS_KM := VNum 0x1.3333333333333p-2%float; CITY_NAME := VStr "Forlì" |}.

(** A response of [fetch]: the outcome of [res.json()]. *)
Record Response : Type := { res_json : Completion JsValue }.

(** Lines 22-28, the body of the [try]: the request goes to
    [fetch_ (url +:+ "/config")]. *)
Definition loadServerConfig_try (fetch_ : string -> Completion Response)
           (url : string) (st : Settings) : Completion unit * Settings :=
  match fetch_ (url +:+ "/config") with
  | Throw e => (Throw e, st)
  | Normal res =>
      match res_json res with
      | Throw e => (Throw e, st)
      | Normal cfg =>
          match get_prop cfg "RADIUS_KM" with
          | Throw e => (Throw e, st)
          | Normal r =>
              let st1 := if defined r
                         then {| RADIUS_KM := r; CITY_NAME := CITY_NAME st |}
                         else st in
              match get_prop cfg "CITY_NAME" with
              | Throw e => (Throw e, st1)
              | Normal c =>
                  let st2 := if defined c
                             then {| RADIUS_KM := RADIUS_KM st1; CITY_NAME := c |}
                             else st1 in
                  (Normal tt, st2)
              end
          end
      end
  end.

(** Lines 21-33: whatever the [try] throws is caught and only logged. *)
Definition loadServerConfig (fetch_ : string -> Completion Response)
           (url : string) (st : Settings) : Completion unit * Settings :=
  match loadServerConfig_try fetch_ url st with
  | (Normal _, st') => (Normal tt, st')
  | (Throw _, st') => (Normal tt, st')
  end.

(** ** The loops, by structural recursion *)

Section Loops.

Context {F : Type} `{Number F}.
Local Open Scope js_scope.

Lemma for_upto_succ {S : Type} (n : nat) (body : nat -> S -> S) (s : S) :
  for_upto (Datatypes.S n) body s = body n (for_upto n body s).
Proof.
  unfold for_upto. rewrite seq_S, fold_left_app. reflexivity.
Qed.

Lemma read_middle (pre : list F) (x : F) (v : list F) :
  read (pre ++ x :: v) (length pre) = x.
Proof.
  unfold read. rewrite list_lookup_middle by reflexivity. reflexivity.
Qed.

Lemma read_in_range (v : list F) (i : nat) :
  (i < length v)%nat -> v !! i = Some (read v i).
Proof.
  intros Hi. unfold read.
  destruct (lookup_lt_is_Some_2 v i Hi) as [x ->]. reflexivity.
Qed.

(** A loop that reads one array at each index folds over its elements. *)
Lemma fold_indices_one {S : Type} (g : S -> F -> S) (v : list F) :
  forall (pre : list F) (s : S),
    fold_left (fun s i => g s (read (pre ++ v) i))
              (seq (length pre) (length v)) s
    = fold_left g v s.
Proof.
  induction v as [|x v IH]; intros pre s; [reflexivity|].
  cbn [length seq fold_left]. rewrite read_middle.
  replace (pre ++ x :: v) with ((pre ++ [x]) ++ v)
    by (rewrite <- app_assoc; reflexivity).
  replace (Datatypes.S (length pre)) with (length (pre ++ [x]))
    by (rewrite length_app; cbn; lia).
  apply IH.
Qed.

Lemma for_upto_read {S : Type} (g : S -> F -> S) (v : list F) (s : S) :
  for_upto (length v) (fun i s => g s (read v i)) s = fold_left g v s.
Proof. exact (fold_indices_one g v [] s). Qed.

(** The same for a loop that reads two arrays of one length. *)
Lemma fold_indices_two {S : Type} (g : S -> F -> F -> S) (a : list F) :
  forall (b pa pb : list F) (s : S),
    length pa = length pb -> length a = length b ->
    fold_left (fun s i => g s (read (pa ++ a) i) (read (pb ++ b) i))
              (seq (length pa) (length a)) s
    = fold_left (fun s p => g s p.1 p.2) (zip a b) s.
Proof.
  induction a as [|x a IH]; intros [|y b] pa pb s Hp Hl;
    try discriminate; [reflexivity|].
  cbn [length seq fold_left zip_with]. rewrite read_middle.
  replace (read (pb ++ y :: b) (length pa)) with y
    by (rewrite Hp; symmetry; apply read_middle).
  replace (pa ++ x :: a) with ((pa ++ [x]) ++ a)
    by (rewrite <- app_assoc; reflexivity).
  replace (pb ++ y :: b) with ((pb ++ [y]) ++ b)
    by (rewrite <- app_assoc; reflexivity).
  replace (Datatypes.S (length pa)) with (length (pa ++ [x]))
    by (rewrite length_app; cbn; lia).
  apply IH; [rewrite !length_app; cbn; lia | cbn in Hl; lia].
Qed.

Lemma for_upto_read_two {S : Type} (g : S -> F -> F -> S)
      (a b : list F) (s : S) :
  length a = length b ->
  for_upto (length a) (fun i s => g s (read a i) (read b i)) s
  = fold_left (fun s p => g s p.1 p.2) (zip a b) s.
Proof. intros Hl. exact (fold_indices_two g a b [] [] s eq_refl Hl). Qed.

(** The scaling loop rewrites the elements one by one, left to right. *)
Lemma scale_indices (inv : F) (v : list F) :
  forall pre : list F,
    fold_left (fun out i => scale_at inv i out)
              (seq (length pre) (length v)) (pre ++ v)
    = pre ++ map (fun x => num_fround (x * inv)) v.
Proof.
  induction v as [|x v IH]; intros pre; [reflexivity|].
  cbn [length seq fold_left map]. unfold scale_at at 2.
  rewrite read_middle.
  replace (<[length pre:=num_fround (x * inv)]> (pre ++ x :: v))
    with ((pre ++ [num_fround (x * inv)]) ++ v).
  - replace (Datatypes.S (length pre))
      with (length (pre ++ [num_fround (x * inv)]))
      by (rewrite length_app; cbn; lia).
    rewrite IH, <- app_assoc. reflexivity.
  - rewrite <- app_assoc. cbn [app].
    pose proof (insert_app_r pre (x :: v) 0 (num_fround (x * inv))) as E.
    rewrite Nat.add_0_r in E. rewrite E. reflexivity.
Qed.

Lemma scale_loop (inv : F) (v : list F) :
  for_upto (length v) (scale_at inv) v
  = map (fun x => num_fround (x * inv)) v.
Proof. exact (scale_indices inv v []). Qed.

Lemma sum_squares_fold (v : list F) :
  sum_squares v = fold_left (fun sum x => sum + x * x) v 0.
Proof.
  unfold sum_squares.
  exact (for_upto_read (fun sum x => sum + x * x) v 0).
Qed.

Lemma length_normalizeInPlace (v : list F) :
  length (normalizeInPlace v) = length v.
Proof.
  unfold normalizeInPlace. cbv zeta.
  destruct (num_sne _ _); [|reflexivity].
  rewrite scale_loop. apply length_map.
Qed.

Lemma cosineSim_invalid (vecA vecB : JsArg F) (w : World F) :
  invalid vecA vecB -> cosineSim vecA vecB w = (Normal (num_neg 1), w).
Proof.
  unfold cosineSim, invalid.
  destruct vecA as [| |a], vecB as [| |b]; cbn; try reflexivity.
  intros Hne. apply Nat.eqb_neq in Hne. rewrite Hne. reflexivity.
Qed.

Lemma cosineSim_vectors (a b : list F) (w : World F) :
  length a = length b ->
  cosineSim (JsVec a) (JsVec b) w
  = (Normal (fold_left (fun dot p => dot + p.1 * p.2) (zip a b) 0), w).
Proof.
  intros Hl. unfold cosineSim. cbn [falsy arg_length arg_read orb].
  rewrite (proj2 (Nat.eqb_eq _ _) Hl). cbn [negb].
  unfold ret. f_equal. f_equal.
  exact (for_upto_read_two (fun dot x y => dot + x * y) a b 0 Hl).
Qed.

Lemma embedFromCanvas_ready (can : Canvas) (w : World F)
      (tf : TfLib) (em : Model F) :
  g_tf w = Some tf -> embedModel w = Some em ->
  embedFromCanvas can w
  = match extract tf em can with
    | Normal out => (Normal (normalizeInPlace out), w)
    | Throw e => (Throw e, w)
    end.
Proof.
  intros Htf Hem. unfold embedFromCanvas, bind, gets, call, ret.
  rewrite Htf, Hem. destruct (extract tf em can); reflexivity.
Qed.

Lemma fold_zip_swap (a : list F) :
  (forall x y : F, num_mul x y = num_mul y x) ->
  forall (b : list F) (s : F),
    fold_left (fun dot p => (dot + p.1 * p.2)%js) (zip a b) s
    = fold_left (fun dot p => (dot + p.1 * p.2)%js) (zip b a) s.
Proof.
  intros Hcomm. induction a as [|x a IH]; intros [|y b] s; cbn;
    try reflexivity.
  rewrite (Hcomm x y). apply IH.
Qed.

(** The scorer does not depend on the order of its arguments wherever
    multiplication does not. *)
Lemma cosineSim_swap (vecA vecB : JsArg F) (w : World F) :
  (forall x y : F, num_mul x y = num_mul y x) ->
  cosineSim vecA vecB w = cosineSim vecB vecA w.
Proof.
  intros Hcomm. destruct vecA as [| |a], vecB as [| |b]; try reflexivity.
  destruct (Nat.eq_dec (length a) (length b)) as [Hl|Hl].
  - rewrite (cosineSim_vectors a b w Hl).
    rewrite (cosineSim_vectors b a w (eq_sym Hl)).
    rewrite (fold_zip_swap a Hcomm). reflexivity.
  - rewrite !cosineSim_invalid; [reflexivity | cbn; congruence | exact Hl].
Qed.

End Loops.

(** ** Exact arithmetic: norms and dot products *)

Section ExactArithmetic.

Local Open Scope R_scope.

Lemma fold_left_dot (a b : list R) :
  forall s : R,
    fold_left (fun dot p => (dot + p.1 * p.2)%js) (zip a b) s
    = s + dot_product a b.
Proof.
  revert b. induction a as [|x a IH]; intros [|y b] s; cbn; try lra.
  rewrite IH. cbn. lra.
Qed.

Lemma fold_left_squares (v : list R) :
  forall s : R,
    fold_left (fun sum x => (sum + x * x)%js) v s = s + dot_product v v.
Proof.
  induction v as [|x v IH]; intros s; cbn; [lra|].
  rewrite IH. cbn. lra.
Qed.

Lemma sum_squares_exact (v : list R) : sum_squares v = dot_product v v.
Proof.
  rewrite sum_squares_fold, fold_left_squares. cbn. lra.
Qed.

Lemma dot_product_comm (a b : list R) : dot_product a b = dot_product b a.
Proof.
  revert b. induction a as [|x a IH]; intros [|y b]; cbn; try reflexivity.
  rewrite IH. lra.
Qed.

Lemma dot_self_nonneg (v : list R) : 0 <= dot_product v v.
Proof.
  induction v as [|x v IH]; cbn; [lra | nra].
Qed.

Lemma dot_self_zero (v : list R) :
  dot_product v v = 0 <-> Forall (fun x => x = 0) v.
Proof.
  induction v as [|x v IH]; cbn.
  - split; [constructor | reflexivity].
  - pose proof (dot_self_nonneg v) as Hv. split.
    + intros Hs. constructor; [nra | apply IH; nra].
    + intros Hall. inversion Hall as [|? ? Hx Hrest]; subst.
      apply IH in Hrest. lra.
Qed.

Lemma norm2_zero (v : list R) : norm2 v = 0 <-> dot_product v v = 0.
Proof.
  unfold norm2. split.
  - apply sqrt_eq_0, dot_self_nonneg.
  - intros ->. apply sqrt_0.
Qed.

Lemma norm2_zero_all_zero (v : list R) :
  norm2 v = 0 <-> Forall (fun x => x = 0) v.
Proof.
  rewrite norm2_zero. apply dot_self_zero.
Qed.

Lemma norm2_nonzero_pos (v : list R) : norm2 v <> 0 -> 0 < dot_product v v.
Proof.
  intros Hn. pose proof (dot_self_nonneg v) as Hv.
  destruct (Req_dec (dot_product v v) 0) as [E|E]; [|lra].
  exfalso. apply Hn, norm2_zero, E.
Qed.

Lemma dot_product_scale (c : R) (a b : list R) :
  dot_product (map (fun x => x * c) a) (map (fun x => x * c) b)
  = c * c * dot_product a b.
Proof.
  revert b. induction a as [|x a IH]; intros [|y b]; cbn; try lra.
  rewrite IH. lra.
Qed.

(** Line 80 in exact arithmetic. *)
Lemma inv_norm_exact (v : list R) :
  inv_norm (sum_squares v)
  = if Rlt_dec 0 (dot_product v v) then 1 / norm2 v else 1.
Proof.
  unfold inv_norm, norm2. rewrite sum_squares_exact. cbn.
  destruct (Rlt_dec 0 (dot_product v v)); reflexivity.
Qed.

(** Lines 81-83 in exact arithmetic: skipping the loop when [inv] is
    exactly 1 is the same as scaling by 1. *)
Lemma normalize_exact (v : list R) :
  normalizeInPlace v = map (fun x => x * inv_norm (sum_squares v)) v.
Proof.
  unfold normalizeInPlace. cbv zeta. cbn [num_sne Exact.number].
  destruct (Req_dec_T (inv_norm (sum_squares v)) 1%js) as [E|E].
  - rewrite E. cbn. clear E. induction v as [|x v IH]; cbn; [reflexivity|].
    rewrite <- IH. f_equal. lra.
  - rewrite scale_loop. reflexivity.
Qed.

Lemma norm2_normalized (v : list R) :
  norm2 v <> 0 -> norm2 (normalizeInPlace v) = 1.
Proof.
  intros Hn. pose proof (norm2_nonzero_pos v Hn) as Hpos.
  rewrite normalize_exact, inv_norm_exact.
  destruct (Rlt_dec 0 (dot_product v v)) as [_|C]; [|contradiction].
  unfold norm2 at 1. rewrite dot_product_scale.
  replace (1 / norm2 v * (1 / norm2 v) * dot_product v v) with 1;
    [apply sqrt_1|].
  unfold norm2. set (d := dot_product v v) in *.
  pose proof (sqrt_lt_R0 d Hpos) as Hr.
  pose proof (sqrt_sqrt d (Rlt_le _ _ Hpos)) as Hs.
  set (r := R_sqrt.sqrt d) in *. rewrite <- Hs. field. lra.
Qed.

(** Cauchy-Schwarz for unit vectors, from [Σ (aᵢ ∓ bᵢ)² >= 0]. *)
Lemma dot_product_sub_sq (a b : list R) :
  length a = length b ->
  0 <= dot_product a a + dot_product b b - 2 * dot_product a b /\
  0 <= dot_product a a + dot_product b b + 2 * dot_product a b.
Proof.
  revert b. induction a as [|x a IH]; intros [|y b] Hl;
    try discriminate; cbn; [lra|].
  destruct (IH b) as [H1 H2]; [cbn in Hl; lia|].
  pose proof (Rle_0_sqr (x - y)) as Hm. pose proof (Rle_0_sqr (x + y)) as Hp.
  unfold Rsqr in Hm, Hp. split; lra.
Qed.

Lemma norm2_one (v : list R) : norm2 v = 1 -> dot_product v v = 1.
Proof.
  unfold norm2. intros Hn. pose proof (dot_self_nonneg v) as Hv.
  rewrite <- (sqrt_sqrt (dot_product v v)) by exact Hv.
  rewrite Hn. lra.
Qed.

Lemma sum_guard_zero_norm (v : list R) :
  norm2 v = 0 -> num_gt (sum_squares v) num_zero = false.
Proof.
  intros Hn. apply norm2_zero in Hn. rewrite sum_squares_exact, Hn. cbn.
  destruct (Rlt_dec 0 0) as [C|_]; [lra | reflexivity].
Qed.


(** Line 81: with [inv] exactly 1 the array is returned as it came. *)
Lemma normalize_skips (v : list R) :
  inv_norm (sum_squares v) = 1 -> normalizeInPlace v = v.
Proof.
  intros Hinv. unfold normalizeInPlace. cbv zeta. rewrite Hinv. cbn.
  destruct (Req_dec_T 1 1) as [_|C]; [reflexivity | contradiction].
Qed.

Lemma normalize_zero_norm (v : list R) :
  norm2 v = 0 -> normalizeInPlace v = v.
Proof.
  intros Hn. apply normalize_skips. unfold inv_norm.
  rewrite (sum_guard_zero_norm v Hn). reflexivity.
Qed.


Lemma cosineSim_exact (a b : list R) (w : World R) :
  length a = length b ->
  cosineSim (JsVec a) (JsVec b) w = (Normal (dot_product a b), w).
Proof.
  intros Hl. rewrite (cosineSim_vectors a b w Hl), fold_left_dot.
  cbn. do 2 f_equal. lra.
Qed.

End ExactArithmetic.

(** ** The module state across calls *)

Section Histories.

Context {F : Type} `{Number F}.

Ltac run_monad :=
  unfold bind, gets, try_catch, call, throw, ret, modify in *.

(** [initEmbeddingModel] sets [embedModel] exactly when it returns
    normally. *)
Lemma initEmbeddingModel_embedModel (w w' : World F) (r : Completion unit) :
  initEmbeddingModel w = (r, w') ->
  if is_normal r then is_Some (embedModel w')
  else embedModel w' = embedModel w.
Proof.
  unfold initEmbeddingModel, warmup. run_monad. intros Hrun.
  repeat case_match; simplify_eq; cbn; eauto.
Qed.

Lemma ensureRuntimeDim_embedModel (w w' : World F) (r : Completion unit) :
  ensureRuntimeDim w = (r, w') -> embedModel w' = embedModel w.
Proof.
  unfold ensureRuntimeDim, warmup. run_monad. intros Hrun.
  repeat case_match; simplify_eq; cbn; eauto.
Qed.

Lemma embedFromCanvas_frame (can : Canvas) (w : World F) :
  (embedFromCanvas can w).2 = w.
Proof.
  unfold embedFromCanvas. run_monad.
  repeat case_match; simplify_eq; reflexivity.
Qed.

Lemma cosineSim_frame (vecA vecB : JsArg F) (w : World F) :
  (cosineSim vecA vecB w).2 = w.
Proof.
  unfold cosineSim, ret. case_match; reflexivity.
Qed.

Lemma step_embedModel (w w' : World F) (b : bool) :
  Step w b w' ->
  if b then is_Some (embedModel w') else embedModel w' = embedModel w.
Proof.
  intros [w0 tf mn | w0 r w1 Hrun | w0 r w1 Hrun | can w0 r w1 Hrun
         | vecA vecB w0 r w1 Hrun | w0 r w1 Hrun | w0 r w1 Hrun].
  - reflexivity.
  - exact (initEmbeddingModel_embedModel _ _ _ Hrun).
  - exact (ensureRuntimeDim_embedModel _ _ _ Hrun).
  - pose proof (embedFromCanvas_frame can w0) as E.
    rewrite Hrun in E. cbn in E. subst. reflexivity.
  - pose proof (cosineSim_frame vecA vecB w0) as E.
    rewrite Hrun in E. cbn in E. subst. reflexivity.
  - unfold hasEmbedModel in Hrun. run_monad. simplify_eq. reflexivity.
  - unfold getRuntimeDim in Hrun. run_monad. simplify_eq. reflexivity.
Qed.

(** The model variable is set exactly in the histories with a successful
    [initEmbeddingModel]. *)
Lemma history_embedModel (loaded : bool) (w : World F) :
  History loaded w -> (embedModel w = None <-> loaded = false).
Proof.
  induction 1 as [tf mn | loaded w b w' Hh IH Hs]; [cbn; tauto|].
  apply step_embedModel in Hs. destruct b.
  - rewrite orb_true_r. destruct Hs as [m Hm]. rewrite Hm.
    split; discriminate.
  - rewrite orb_false_r, Hs. exact IH.
Qed.

Lemma embedFromCanvas_guard (can : Canvas) (w : World F) :
  g_tf w = None \/ embedModel w = None ->
  embedFromCanvas can w
  = (Throw (Error "Embedding model non disponibile"), w).
Proof.
  unfold embedFromCanvas. run_monad.
  intros [-> | ->]; [reflexivity|]. destruct (g_tf w); reflexivity.
Qed.

End Histories.

(** ** IEEE binary64 *)

Section Binary64Facts.

Lemma SFmul_comm (prec emax : Z) (x y : spec_float) :
  SFmul prec emax x y = SFmul prec emax y x.
Proof.
  destruct x as [sx|sx| |sx mx ex], y as [sy|sy| |sy my ey]; cbn;
    rewrite ?(xorb_comm sx sy); try reflexivity.
  rewrite (Pos.mul_comm mx my), (Z.add_comm ex ey). reflexivity.
Qed.

(** Multiplication of doubles is commutative, bit for bit. *)
Lemma binary64_mul_comm (x y : float) : (x * y)%float = (y * x)%float.
Proof.
  apply Prim2SF_inj. rewrite !mul_spec. apply SFmul_comm.
Qed.

(** A Float32Array of zeros of either sign sums to [+0]. *)
Lemma binary64_sum_squares_zeros (v : list float) :
  Forall (fun x => x = 0%float \/ x = (-0)%float) v ->
  sum_squares v = 0%float.
Proof.
  rewrite sum_squares_fold. cbn [num_zero Binary64.number].
  induction 1 as [|x v [-> | ->] _ IH]; cbn [fold_left];
    [reflexivity | exact IH | exact IH].
Qed.

(** The zero vector goes through the normalisation untouched, in the
    arithmetic of the browser too. *)
Lemma binary64_zeros_unchanged (v : list float) :
  Forall (fun x => x = 0%float \/ x = (-0)%float) v ->
  normalizeInPlace v = v.
Proof.
  intros Hz. unfold normalizeInPlace.
  rewrite (binary64_sum_squares_zeros v Hz). reflexivity.
Qed.


Example binary64_normalize_3_4 :
  normalizeInPlace [3; 4]%float
  = [0x1.333334p-1; 0x1.99999ap-1]%float.
Proof. vm_compute. reflexivity. Qed.

(** Rounding shows in the score: the normalised [3, 4] is a unit vector
    only up to binary32 rounding, and scores above 1 against itself. *)
Example binary64_self_score_above_one :
  cosineSim (JsVec (normalizeInPlace [3; 4]%float))
            (JsVec (normalizeInPlace [3; 4]%float)) (fresh None None)
  = (Normal 0x1.000000cccccdp+0%float, fresh None None) /\
  (1 <? 0x1.000000cccccdp+0)%float = true.
Proof. split; vm_compute; reflexivity. Qed.

Example binary64_cosineSim_antipodal :
  cosineSim (JsVec [1]%float) (JsVec [-1]%float) (fresh None None)
  = (Normal (-1)%float, fresh None None).
Proof. reflexivity. Qed.

End Binary64Facts.

(** ** Properties of the scorer and of the normalisation *)

Section Claims.

Local Open Scope R_scope.

(** C1, as the code has it: for two vectors of unequal length [cosineSim]
    returns the number -1 and throws nothing; the state is untouched. *)
Theorem cosineSim_length_mismatch {F : Type} `{Number F}
        (a b : list F) (w : World F) :
  length a <> length b ->
  cosineSim (JsVec a) (JsVec b) w = (Normal (num_neg num_one), w).
Proof.
  intros Hne. apply cosineSim_invalid. exact Hne.
Qed.

Lemma cosineSim_length_mismatch_witness :
  length [1%float] <> length (@nil float) /\
  cosineSim (JsVec [1%float]) (JsVec []) (fresh None None)
  = (Normal (-1)%float, fresh None None).
Proof.
  split; [discriminate|].
  exact (cosineSim_length_mismatch [1%float] [] (fresh None None)
           ltac:(discriminate)).
Defined.

(** C1, as the specification words it, fails: on vectors of lengths 1 and
    0 the call returns -1 normally, so it ends in no error at all. *)
Lemma length_mismatch_is_no_error :
  length [1%float] <> length (@nil float) /\
  cosineSim (JsVec [1%float]) (JsVec []) (fresh None None)
  = (Normal (-1)%float, fresh None None) /\
  forall (e : JsError) (w' : World float),
    cosineSim (JsVec [1%float]) (JsVec []) (fresh None None)
    <> (Throw e, w').
Proof.
  split; [discriminate|]. split; [reflexivity|].
  intros e w'. discriminate.
Qed.

(** C2: when the raw embedding has L2 norm zero, [embedFromCanvas]
    returns it unchanged and throws nothing; the guard [sum > 0] of the
    only division is false, so no division takes place and [inv] is the
    literal 1. *)
Theorem zero_vector_passes_unnormalized
        (w : World R) (can : Canvas) (v : list R) :
  raw_features w can v -> norm2 v = 0 ->
  embedFromCanvas can w = (Normal v, w) /\
  normalizeInPlace v = v /\
  num_gt (sum_squares v) num_zero = false /\
  inv_norm (sum_squares v) = 1.
Proof.
  intros (tf & em & Htf & Hem & Hex) Hn.
  pose proof (sum_guard_zero_norm v Hn) as Hgt.
  rewrite (embedFromCanvas_ready can w tf em Htf Hem), Hex.
  rewrite (normalize_zero_norm v Hn).
  repeat split; [exact Hgt|]. unfold inv_norm. rewrite Hgt. reflexivity.
Qed.

Lemma zero_vector_passes_unnormalized_witness :
  embedFromCanvas Sample.can (Sample.loaded [0; 0])
  = (Normal [0; 0], Sample.loaded [0; 0]).
Proof.
  apply (zero_vector_passes_unnormalized
           (Sample.loaded [0; 0]) Sample.can [0; 0]).
  - exists Sample.tf, (Sample.model [0; 0]). repeat split.
  - apply norm2_zero. cbn. lra.
Defined.

(** C3: when the raw embedding has length at least 1 and a nonzero L2
    norm, [embedFromCanvas] returns a vector of the same length whose
    every element is the input element times [1/‖v‖₂]; its L2 norm is 1. *)
Theorem normalize_scales_by_inverse_norm
        (w : World R) (can : Canvas) (v : list R) :
  raw_features w can v -> (1 <= length v)%nat -> norm2 v <> 0 ->
  exists out : list R,
    embedFromCanvas can w = (Normal out, w) /\
    out = normalizeInPlace v /\
    length out = length v /\
    (forall (i : nat) (x : R),
        v !! i = Some x -> out !! i = Some (x * (1 / norm2 v))) /\
    norm2 out = 1.
Proof.
  intros (tf & em & Htf & Hem & Hex) _ Hn.
  exists (normalizeInPlace v).
  rewrite (embedFromCanvas_ready can w tf em Htf Hem), Hex.
  split; [reflexivity|]. split; [reflexivity|].
  split; [apply length_normalizeInPlace|].
  split; [|apply norm2_normalized, Hn].
  intros i x Hi. rewrite normalize_exact, inv_norm_exact.
  destruct (Rlt_dec 0 (dot_product v v)) as [_|C].
  - change (map ?f v) with (f <$> v).
    rewrite list_lookup_fmap, Hi. reflexivity.
  - exfalso. apply C, norm2_nonzero_pos, Hn.
Qed.

Lemma norm2_3_4 : norm2 [3; 4] = 5.
Proof.
  unfold norm2. cbn. apply sqrt_lem_1; lra.
Qed.

Lemma normalize_scales_by_inverse_norm_witness :
  exists out : list R,
    embedFromCanvas Sample.can (Sample.loaded [3; 4])
    = (Normal out, Sample.loaded [3; 4]) /\
    out = normalizeInPlace [3; 4] /\
    length out = 2%nat /\
    (forall (i : nat) (x : R),
        [3; 4] !! i = Some x -> out !! i = Some (x * (1 / norm2 [3; 4]))) /\
    norm2 out = 1.
Proof.
  apply (normalize_scales_by_inverse_norm
           (Sample.loaded [3; 4]) Sample.can [3; 4]).
  - exists Sample.tf, (Sample.model [3; 4]). repeat split.
  - cbn. lia.
  - rewrite norm2_3_4. lra.
Defined.

(** C4, as the code has it: on two vectors of one length [cosineSim]
    returns the products [a[i]·b[i]] accumulated from 0 in index order,
    every product and partial sum in the arithmetic of its numbers, and
    leaves the state as it found it; in exact arithmetic that number is
    the dot product [Σᵢ a[i]·b[i]]. *)
Theorem cosineSim_accumulates_dot_product :
  (forall (F : Type) (N : Number F) (a b : list F) (w : World F),
      length a = length b ->
      cosineSim (JsVec a) (JsVec b) w
      = (Normal (accumulate_dot num_zero a b), w)) /\
  (forall (a b : list R) (w : World R),
      length a = length b ->
      accumulate_dot 0 a b = dot_product a b /\
      cosineSim (JsVec a) (JsVec b) w = (Normal (dot_product a b), w)).
Proof.
  split.
  - intros F N a b w Hl. rewrite (cosineSim_vectors a b w Hl).
    do 2 f_equal. generalize (@num_zero F N). clear Hl. revert b.
    induction a as [|x a IH]; intros [|y b] s; cbn; try reflexivity.
    apply IH.
  - intros a b w Hl. split; [|exact (cosineSim_exact a b w Hl)].
    clear Hl. rewrite <- (Rplus_0_l (dot_product a b)).
    generalize 0 at 1 2. revert b.
    induction a as [|x a IH]; intros [|y b] s; cbn; try lra.
    rewrite IH. lra.
Qed.

(** C4, as the specification words it, fails in the arithmetic of the
    browser: on [2^60, 1, -2^60] and [1, 1, 1] the partial sum [2^60 + 1]
    rounds back to [2^60], and the call returns 0 where the dot product of
    the two vectors is 1. *)
Lemma cosineSim_rounding_drops_a_term :
  length [0x1p60; 1; -0x1p60]%float = length [1; 1; 1]%float /\
  cosineSim (JsVec [0x1p60; 1; -0x1p60]%float) (JsVec [1; 1; 1]%float)
            (fresh None None)
  = (Normal 0%float, fresh None None) /\
  exact_value 0%float = Some 0%Q /\
  exact_dot [0x1p60; 1; -0x1p60]%float [1; 1; 1]%float = Some 1%Q /\
  ~ (0 == 1)%Q.
Proof.
  split; [reflexivity|]. split; [vm_compute; reflexivity|].
  split; [vm_compute; reflexivity|]. split; [vm_compute; reflexivity|].
  discriminate.
Qed.

(** Where no operation rounds, the doubles give the dot product too. *)
Example binary64_cosineSim_small_integers :
  cosineSim (JsVec [1; 2]%float) (JsVec [3; 4]%float) (fresh None None)
  = (Normal 11%float, fresh None None) /\
  exact_dot [1; 2]%float [3; 4]%float = exact_value 11%float.
Proof. split; vm_compute; reflexivity. Qed.



(** A vector of doubles on which the sum of squares is exactly 1: the
    normalised [1, 1, 1, 1]. *)
Example binary64_unit_sum_fixed_point :
  normalizeInPlace [1; 1; 1; 1]%float = [0.5; 0.5; 0.5; 0.5]%float /\
  sum_squares [0.5; 0.5; 0.5; 0.5]%float = 1%float /\
  normalizeInPlace [0.5; 0.5; 0.5; 0.5]%float = [0.5; 0.5; 0.5; 0.5]%float.
Proof. repeat split; vm_compute; reflexivity. Qed.

Lemma norm2_1_0 : norm2 [1; 0] = 1.
Proof.
  unfold norm2. cbn. apply sqrt_lem_1; lra.
Qed.

Lemma norm2_0_1 : norm2 [0; 1] = 1.
Proof.
  unfold norm2. cbn. apply sqrt_lem_1; lra.
Qed.

(** C6: on two vectors of one length, [cosineSim a b] and [cosineSim b a]
    are the same number, in every arithmetic whose multiplication is
    commutative (that of doubles and that of the reals are). *)
Theorem cosineSim_symmetric {F : Type} `{Number F}
        (a b : list F) (w : World F) :
  (forall x y : F, num_mul x y = num_mul y x) ->
  length a = length b ->
  cosineSim (JsVec a) (JsVec b) w = cosineSim (JsVec b) (JsVec a) w.
Proof.
  intros Hcomm _. apply cosineSim_swap, Hcomm.
Qed.

Lemma cosineSim_symmetric_witness :
  cosineSim (JsVec [0.5; 2]%float) (JsVec [3; 0.25]%float) (fresh None None)
  = cosineSim (JsVec [3; 0.25]%float) (JsVec [0.5; 2]%float)
              (fresh None None).
Proof.
  apply (cosineSim_symmetric [0.5; 2]%float [3; 0.25]%float
                             (fresh None None)).
  - exact binary64_mul_comm.
  - reflexivity.
Defined.

Lemma binary64_scorer_symmetry (a b : list float) (w : World float) :
  cosineSim (JsVec a) (JsVec b) w = cosineSim (JsVec b) (JsVec a) w.
Proof. apply cosineSim_swap. exact binary64_mul_comm. Qed.

Lemma exact_scorer_symmetry (a b : list R) (w : World R) :
  cosineSim (JsVec a) (JsVec b) w = cosineSim (JsVec b) (JsVec a) w.
Proof. apply cosineSim_swap. exact Rmult_comm. Qed.

(** C7: for unit vectors [a] and [b] of one length, [cosineSim a b] lies
    in [-1, 1] and [cosineSim a a] is 1. *)
Theorem cosineSim_bounded_on_unit_vectors (a b : list R) (w : World R) :
  length a = length b -> norm2 a = 1 -> norm2 b = 1 ->
  exists s : R,
    cosineSim (JsVec a) (JsVec b) w = (Normal s, w) /\
    -1 <= s <= 1 /\
    cosineSim (JsVec a) (JsVec a) w = (Normal 1, w).
Proof.
  intros Hl Ha Hb. apply norm2_one in Ha, Hb.
  exists (dot_product a b).
  split; [apply cosineSim_exact, Hl|].
  split.
  - destruct (dot_product_sub_sq a b Hl) as [H1 H2]. lra.
  - rewrite (cosineSim_exact a a w eq_refl), Ha. reflexivity.
Qed.

Lemma cosineSim_bounded_on_unit_vectors_witness :
  exists s : R,
    cosineSim (JsVec [1; 0]) (JsVec [0; 1]) (fresh None None)
    = (Normal s, fresh None None) /\
    -1 <= s <= 1 /\
    cosineSim (JsVec [1; 0]) (JsVec [1; 0]) (fresh None None)
    = (Normal 1, fresh None None).
Proof.
  apply (cosineSim_bounded_on_unit_vectors [1; 0] [0; 1] (fresh None None)).
  - reflexivity.
  - exact norm2_1_0.
  - exact norm2_0_1.
Defined.

(** C8: the normalisation is a function of the raw embedding alone. Two
    runs of [embedFromCanvas] whose extraction gives the same vector,
    in any two states of the module and of the page, return the same
    array, element for element, and leave the state as it was. *)
Theorem normalization_deterministic {F : Type} `{Number F}
        (w1 w2 : World F) (c1 c2 : Canvas) (v : list F) :
  raw_features w1 c1 v -> raw_features w2 c2 v ->
  embedFromCanvas c1 w1 = (Normal (normalizeInPlace v), w1) /\
  embedFromCanvas c2 w2 = (Normal (normalizeInPlace v), w2) /\
  (embedFromCanvas c1 w1).1 = (embedFromCanvas c2 w2).1.
Proof.
  intros (tf1 & em1 & Htf1 & Hem1 & Hex1) (tf2 & em2 & Htf2 & Hem2 & Hex2).
  rewrite (embedFromCanvas_ready c1 w1 tf1 em1 Htf1 Hem1), Hex1.
  rewrite (embedFromCanvas_ready c2 w2 tf2 em2 Htf2 Hem2), Hex2.
  repeat split.
Qed.

Lemma normalization_deterministic_witness :
  (embedFromCanvas Sample.can (Sample.loaded [3; 4]%float)).1
  = (embedFromCanvas Sample.can (Sample.loaded' [3; 4]%float)).1.
Proof.
  apply (normalization_deterministic
           (Sample.loaded [3; 4]%float) (Sample.loaded' [3; 4]%float)
           Sample.can Sample.can [3; 4]%float).
  - exists Sample.tf, (Sample.model [3; 4]%float). repeat split.
  - exists Sample.tf, (Sample.model [3; 4]%float). repeat split.
Defined.

(** C9: in every state the module can reach, [embedFromCanvas] throws
    and returns no vector whenever [tf] is absent or no call of
    [initEmbeddingModel] has returned normally. *)
Theorem embedFromCanvas_throws_unless_loaded {F : Type} `{Number F}
        (loaded : bool) (w : World F) (can : Canvas) :
  History loaded w -> g_tf w = None \/ loaded = false ->
  embedFromCanvas can w
  = (Throw (Error "Embedding model non disponibile"), w).
Proof.
  intros Hh [Htf | Hl]; apply embedFromCanvas_guard; [left; exact Htf|].
  right. apply (history_embedModel loaded w Hh), Hl.
Qed.

(** A module whose only call of [initEmbeddingModel] failed, for want of
    the [mobilenet] script. *)
Lemma history_failed_init :
  History (F := float) (false || false) (fresh (Some Sample.tf) None).
Proof.
  apply (history_step false (fresh (Some Sample.tf) None)); [constructor|].
  apply (step_init _ (Throw (Error "MobileNet non caricato"))).
  reflexivity.
Qed.

Lemma embedFromCanvas_throws_unless_loaded_witness :
  embedFromCanvas (F := float) Sample.can (fresh (Some Sample.tf) None)
  = (Throw (Error "Embedding model non disponibile"),
     fresh (Some Sample.tf) None).
Proof.
  apply (embedFromCanvas_throws_unless_loaded
           (false || false) (fresh (Some Sample.tf) None) Sample.can).
  - exact history_failed_init.
  - right. reflexivity.
Defined.

(** C10: [cosineSim] returns a number for every pair of arguments and
    never throws; on the inputs its guard rejects the number is -1, which
    is also the score of two antipodal unit vectors. *)
Theorem cosineSim_total_with_sentinel :
  (forall (F : Type) (N : Number F) (vecA vecB : JsArg F) (w : World F),
      exists r : F,
        cosineSim vecA vecB w = (Normal r, w) /\
        (invalid vecA vecB -> r = num_neg num_one)) /\
  (exists a b : list R,
      length a = length b /\ norm2 a = 1 /\ norm2 b = 1 /\
      forall w : World R,
        cosineSim (JsVec a) (JsVec b) w = (Normal (-1), w)).
Proof.
  split.
  - intros F N vecA vecB w.
    assert (Hdec : invalid vecA vecB \/ ~ invalid vecA vecB).
    { destruct vecA as [| |a], vecB as [| |b]; cbn; try (left; exact I).
      destruct (Nat.eq_dec (length a) (length b)); [right | left]; tauto. }
    destruct Hdec as [Hi | Hv].
    + exists (num_neg num_one). split; [|reflexivity].
      apply cosineSim_invalid, Hi.
    + destruct vecA as [| |a], vecB as [| |b]; cbn in Hv; try tauto.
      assert (Hl : length a = length b)
        by (destruct (Nat.eq_dec (length a) (length b)); tauto).
      eexists. split; [apply cosineSim_vectors, Hl|].
      intros C. cbn in C. contradiction.
  - exists [1], [-1]. split; [reflexivity|].
    split; [unfold norm2; cbn; apply sqrt_lem_1; lra|].
    split; [unfold norm2; cbn; apply sqrt_lem_1; lra|].
    intros w. rewrite cosineSim_exact by reflexivity.
    cbn. do 2 f_equal. lra.
Qed.

End Claims.

(** ** Further properties: loading the model *)

Section ModelLoading.

Context {F : Type} `{Number F}.

Ltac run_monad :=
  unfold bind, gets, try_catch, call, throw, ret, modify in *.

Lemma initEmbeddingModel_throw_frame (w w' : World F) (e : JsError) :
  initEmbeddingModel w = (Throw e, w') -> w' = w.
Proof.
  unfold initEmbeddingModel, warmup. run_monad. intros Hrun.
  repeat case_match; simplify_eq; reflexivity.
Qed.

(** X1: a call of [initEmbeddingModel] that throws leaves the globals and
    both module variables exactly as they were. *)
Theorem initEmbeddingModel_failure_keeps_state
        (w w' : World F) (e : JsError) :
  initEmbeddingModel w = (Throw e, w') -> w' = w.
Proof.
  intros Hrun. exact (initEmbeddingModel_throw_frame w w' e Hrun).
Qed.

(** X2: [initEmbeddingModel] returns normally exactly when [tf] is present,
    [tf.ready()] succeeds, [mobilenet] is present and its [load] succeeds;
    neither a failing [setBackend] nor a failing warm-up makes it throw. *)
Theorem initEmbeddingModel_succeeds_iff (w : World F) :
  (exists w', initEmbeddingModel w = (Normal tt, w')) <->
  (exists tf mn m,
      g_tf w = Some tf /\ tf_ready tf = Normal tt /\
      g_mobilenet w = Some mn /\ mobilenet_load mn = Normal m).
Proof.
  unfold initEmbeddingModel, warmup. run_monad. split.
  - intros [w' Hrun]. repeat case_match; simplify_eq;
      match goal with u : unit |- _ => destruct u end; eauto 10.
  - intros (tf & mn & m & -> & Hready & -> & Hload).
    rewrite Hready, Hload. repeat case_match; simplify_eq; eauto.
Qed.

(** X3: after a normal return the loaded model is in [embedModel], the
    globals are as before, and [runtimeDim] is the length of the embedding
    of the zero image, or keeps its old value when that inference throws. *)
Theorem initEmbeddingModel_postcondition (w w' : World F) :
  initEmbeddingModel w = (Normal tt, w') ->
  exists mn m,
    g_mobilenet w = Some mn /\ mobilenet_load mn = Normal m /\
    embedModel w' = Some m /\
    g_tf w' = g_tf w /\ g_mobilenet w' = g_mobilenet w /\
    runtimeDim w' = match infer m zero_image with
                    | Normal emb => Some (length emb)
                    | Throw _ => runtimeDim w
                    end.
Proof.
  unfold initEmbeddingModel, warmup, zero_image. run_monad. intros Hrun.
  repeat case_match; cbn in *; simplify_eq;
    do 2 eexists; repeat (split; [eassumption || reflexivity|]);
    match goal with Hx : infer _ _ = _ |- _ => rewrite Hx end; reflexivity.
Qed.

Lemma ensureRuntimeDim_cases (w : World F) :
  ensureRuntimeDim w
  = (Normal tt,
     match g_tf w, embedModel w, runtimeDim w with
     | Some _, Some em, None =>
         match infer em zero_image with
         | Normal emb => set_runtimeDim (length emb) w
         | Throw _ => w
         end
     | _, _, _ => w
     end).
Proof.
  unfold ensureRuntimeDim, warmup, zero_image. run_monad.
  repeat case_match; simplify_eq; reflexivity.
Qed.

(** X4: [ensureRuntimeDim] never throws, changes nothing but [runtimeDim],
    and changes nothing at all when the dimension is already known or when
    [tf] or the model is missing. *)
Theorem ensureRuntimeDim_safe (w : World F) :
  exists w',
    ensureRuntimeDim w = (Normal tt, w') /\
    g_tf w' = g_tf w /\ g_mobilenet w' = g_mobilenet w /\
    embedModel w' = embedModel w /\
    (runtimeDim w <> None \/ g_tf w = None \/ embedModel w = None -> w' = w).
Proof.
  rewrite ensureRuntimeDim_cases. eexists. split; [reflexivity|].
  repeat case_match; cbn;
    do 3 (split; [first [reflexivity | assumption]|]);
    intros [C | [C | C]]; congruence.
Qed.

Lemma step_invariant (w w' : World F) (b : bool) :
  Step w b w' ->
  (is_Some (runtimeDim w) -> is_Some (embedModel w)) ->
  is_Some (runtimeDim w') -> is_Some (embedModel w').
Proof.
  intros Hs Hinv.
  destruct Hs as [w0 tf mn | w0 r w1 Hrun | w0 r w1 Hrun | can w0 r w1 Hrun
                 | vecA vecB w0 r w1 Hrun | w0 r w1 Hrun | w0 r w1 Hrun].
  - exact Hinv.
  - destruct r as [[]|e].
    + intros _. exact (initEmbeddingModel_embedModel _ _ _ Hrun).
    + rewrite (initEmbeddingModel_throw_frame _ _ _ Hrun).
      exact Hinv.
  - rewrite ensureRuntimeDim_cases in Hrun. simplify_eq.
    destruct (g_tf w0); [|exact Hinv].
    destruct (embedModel w0) as [em|] eqn:Hem;
      [|rewrite Hem; exact Hinv].
    intros _.
    destruct (runtimeDim w0); [|destruct (infer em zero_image)];
      cbn; rewrite ?Hem; eexists; reflexivity.
  - pose proof (embedFromCanvas_frame can w0) as E.
    rewrite Hrun in E. cbn in E. subst. exact Hinv.
  - pose proof (cosineSim_frame vecA vecB w0) as E.
    rewrite Hrun in E. cbn in E. subst. exact Hinv.
  - unfold hasEmbedModel in Hrun. run_monad. simplify_eq. exact Hinv.
  - unfold getRuntimeDim in Hrun. run_monad. simplify_eq. exact Hinv.
Qed.

(** X5: in every state the module reaches, a known [runtimeDim] comes with
    a loaded model: the dimension is never set before a model is. *)
Theorem runtimeDim_needs_model (loaded : bool) (w : World F) :
  History loaded w -> is_Some (runtimeDim w) -> is_Some (embedModel w).
Proof.
  induction 1 as [tf mn | loaded w b w' Hh IH Hs].
  - cbn. intros [d Hd]. discriminate.
  - exact (step_invariant w w' b Hs IH).
Qed.

(** X6: [hasEmbedModel] answers, without changing the state, whether some
    call of [initEmbeddingModel] has returned normally so far. *)
Theorem hasEmbedModel_tracks_loading (loaded : bool) (w : World F) :
  History loaded w -> hasEmbedModel w = (Normal loaded, w).
Proof.
  intros Hh. pose proof (history_embedModel loaded w Hh) as Hiff.
  unfold hasEmbedModel. run_monad. do 2 f_equal.
  destruct loaded.
  - apply bool_decide_eq_true. destruct (embedModel w); [eauto|].
    destruct Hiff as [Hn _]. discriminate (Hn eq_refl).
  - apply bool_decide_eq_false. rewrite (proj2 Hiff eq_refl).
    intros [m Hm]. discriminate.
Qed.

(** X7: with a model whose output length does not depend on the image, the
    dimension that [ensureRuntimeDim] records is the length of every
    embedding that [embedFromCanvas] returns afterwards. *)
Theorem runtimeDim_is_embedding_length
        (w w1 w2 : World F) (em : Model F) (r : Completion unit)
        (can : Canvas) (n : nat) (out : list F) :
  embedModel w = Some em ->
  (forall i1 i2 v1 v2,
      infer em i1 = Normal v1 -> infer em i2 = Normal v2 ->
      length v1 = length v2) ->
  runtimeDim w = None ->
  ensureRuntimeDim w = (r, w1) -> runtimeDim w1 = Some n ->
  embedFromCanvas can w1 = (Normal out, w2) ->
  length out = n.
Proof.
  intros Hem Hdim Hrd Hens Hn Hrun.
  rewrite ensureRuntimeDim_cases, Hem, Hrd in Hens. simplify_eq.
  destruct (g_tf w) as [tf|] eqn:Htf; [|cbn in Hn; congruence].
  destruct (infer em zero_image) as [emb|e] eqn:Hz; [|cbn in Hn; congruence].
  cbn in Hn. simplify_eq.
  rewrite (embedFromCanvas_ready can _ tf em) in Hrun by (cbn; assumption).
  destruct (extract tf em can) as [raw|e] eqn:Hex; simplify_eq.
  rewrite length_normalizeInPlace. unfold extract in Hex.
  destruct (tf_fromPixels tf can) as [img|e]; [|discriminate].
  exact (Hdim img zero_image raw emb Hex Hz).
Qed.

End ModelLoading.

Lemma initEmbeddingModel_failure_keeps_state_witness :
  fresh (F := float) (Some Sample.tf) None = fresh (Some Sample.tf) None.
Proof.
  exact (initEmbeddingModel_failure_keeps_state
           (fresh (F := float) (Some Sample.tf) None)
           (fresh (Some Sample.tf) None)
           (Error "MobileNet non caricato") eq_refl).
Defined.

Lemma initEmbeddingModel_postcondition_witness :
  exists mn m,
    g_mobilenet (fresh (Some Sample.tf)
                   (Some {| mobilenet_load := Normal (Sample.model [3; 4]%float) |}))
    = Some mn /\ mobilenet_load mn = Normal m /\
    embedModel (Sample.loaded [3; 4]%float) = Some m /\
    g_tf (Sample.loaded [3; 4]%float) = Some Sample.tf /\
    g_mobilenet (Sample.loaded [3; 4]%float)
    = Some {| mobilenet_load := Normal (Sample.model [3; 4]%float) |} /\
    runtimeDim (Sample.loaded [3; 4]%float)
    = match infer m zero_image with
      | Normal emb => Some (length emb)
      | Throw _ => None
      end.
Proof.
  exact (initEmbeddingModel_postcondition
           (fresh (Some Sample.tf)
              (Some {| mobilenet_load := Normal (Sample.model [3; 4]%float) |}))
           (Sample.loaded [3; 4]%float) eq_refl).
Defined.

(** A module whose first call of [initEmbeddingModel] succeeded. *)
Lemma history_loaded_sample :
  History (F := float) (false || true) (Sample.loaded [3; 4]%float).
Proof.
  apply (history_step false
           (fresh (Some Sample.tf)
              (Some {| mobilenet_load := Normal (Sample.model [3; 4]%float) |}))
           true);
    [constructor|].
  apply (step_init _ (Normal tt)). reflexivity.
Qed.

Lemma runtimeDim_needs_model_witness :
  is_Some (embedModel (Sample.loaded [3; 4]%float)).
Proof.
  apply (runtimeDim_needs_model (false || true) (Sample.loaded [3; 4]%float)).
  - exact history_loaded_sample.
  - exists 2%nat. reflexivity.
Defined.

Lemma hasEmbedModel_tracks_loading_witness :
  hasEmbedModel (Sample.loaded [3; 4]%float)
  = (Normal true, Sample.loaded [3; 4]%float).
Proof.
  exact (hasEmbedModel_tracks_loading (false || true)
           (Sample.loaded [3; 4]%float) history_loaded_sample).
Defined.

Lemma runtimeDim_is_embedding_length_witness :
  length (normalizeInPlace [3; 4]%float) = 2%nat.
Proof.
  refine (runtimeDim_is_embedding_length
            (Sample.loaded' [3; 4]%float)
            (set_runtimeDim 2 (Sample.loaded' [3; 4]%float))
            (set_runtimeDim 2 (Sample.loaded' [3; 4]%float))
            (Sample.model [3; 4]%float)
            (Normal tt) Sample.can 2 (normalizeInPlace [3; 4]%float)
            eq_refl _ eq_refl _ eq_refl _).
  - intros i1 i2 v1 v2 H1 H2. cbn in H1, H2. congruence.
  - reflexivity.
  - reflexivity.
Defined.

(** ** Further properties: the normaliser and the scorer together *)

Section ScorerAndNormaliser.

Local Open Scope R_scope.

Lemma fold_zip_diag {F : Type} `{Number F} (v : list F) :
  forall s : F,
    fold_left (fun dot p => (dot + p.1 * p.2)%js) (zip v v) s
    = fold_left (fun sum x => (sum + x * x)%js) v s.
Proof.
  induction v as [|x v IH]; intros s; [reflexivity|]. cbn. apply IH.
Qed.

(** X8: the score of a vector against itself is the very sum of squares
    the normaliser computes, operation for operation: in doubles too the
    two numbers are the same. *)
Theorem cosineSim_self_is_sum_squares {F : Type} `{Number F}
        (v : list F) (w : World F) :
  cosineSim (JsVec v) (JsVec v) w = (Normal (sum_squares v), w).
Proof.
  rewrite (cosineSim_vectors v v w eq_refl), fold_zip_diag, sum_squares_fold.
  reflexivity.
Qed.

Lemma dot_product_scale_two (c d : R) (a b : list R) :
  dot_product (map (fun x => x * c) a) (map (fun x => x * d) b)
  = c * d * dot_product a b.
Proof.
  revert b. induction a as [|x a IH]; intros [|y b]; cbn; try lra.
  rewrite IH. lra.
Qed.

Lemma dot_product_zero_l (a b : list R) :
  Forall (fun x => x = 0) a -> dot_product a b = 0.
Proof.
  intros Ha. revert b. induction Ha as [|x a -> _ IH]; intros [|y b]; cbn;
    try reflexivity.
  rewrite IH. lra.
Qed.

Lemma inv_norm_nonzero (v : list R) :
  norm2 v <> 0 -> inv_norm (sum_squares v) = 1 / norm2 v.
Proof.
  intros Hn. rewrite inv_norm_exact.
  destruct (Rlt_dec 0 (dot_product v v)) as [_|C]; [reflexivity|].
  exfalso. apply C, norm2_nonzero_pos, Hn.
Qed.

Lemma norm2_pos (v : list R) : norm2 v <> 0 -> 0 < norm2 v.
Proof.
  intros Hn. apply sqrt_lt_R0, norm2_nonzero_pos, Hn.
Qed.

Lemma norm2_scale (c : R) (v : list R) :
  0 <= c -> norm2 (map (fun x => x * c) v) = c * norm2 v.
Proof.
  intros Hc. unfold norm2. rewrite dot_product_scale.
  rewrite sqrt_mult by (try apply dot_self_nonneg; nra).
  rewrite sqrt_square by exact Hc. reflexivity.
Qed.

(** X9: the normalisation keeps only the direction: a raw vector and any
    positive multiple of it normalise to the same vector. *)
Theorem normalize_scale_invariant (c : R) (v : list R) :
  0 < c ->
  normalizeInPlace (map (fun x => x * c) v) = normalizeInPlace v.
Proof.
  intros Hc. destruct (Req_dec (norm2 v) 0) as [Hz|Hnz].
  - assert (Hall : Forall (fun x => x = 0) v)
      by (apply norm2_zero_all_zero, Hz).
    assert (Hsame : map (fun x => x * c) v = v).
    { clear Hz. induction Hall as [|x v -> _ IH]; cbn; [reflexivity|].
      rewrite IH. f_equal. lra. }
    rewrite Hsame. reflexivity.
  - pose proof (norm2_pos v Hnz) as Hpos.
    assert (Hnz' : norm2 (map (fun x => x * c) v) <> 0)
      by (rewrite norm2_scale by lra; nra).
    rewrite !normalize_exact, (inv_norm_nonzero _ Hnz'), (inv_norm_nonzero v Hnz).
    rewrite norm2_scale by lra. rewrite map_map.
    apply map_ext. intros x. field. split; lra.
Qed.

Lemma normalize_scale_invariant_witness :
  normalizeInPlace (map (fun x => x * 2) [3; 4]) = normalizeInPlace [3; 4].
Proof.
  apply (normalize_scale_invariant 2 [3; 4]). lra.
Defined.

(** X10: scoring two normalised embeddings gives the cosine of the angle
    between the raw vectors, [a·b / (‖a‖₂ ‖b‖₂)]. *)
Theorem cosineSim_of_normalized_is_cosine (a b : list R) (w : World R) :
  length a = length b -> norm2 a <> 0 -> norm2 b <> 0 ->
  cosineSim (JsVec (normalizeInPlace a)) (JsVec (normalizeInPlace b)) w
  = (Normal (dot_product a b / (norm2 a * norm2 b)), w).
Proof.
  intros Hl Ha Hb.
  rewrite cosineSim_exact by (rewrite !length_normalizeInPlace; exact Hl).
  rewrite !normalize_exact, (inv_norm_nonzero a Ha), (inv_norm_nonzero b Hb).
  rewrite dot_product_scale_two. do 2 f_equal. field. split; assumption.
Qed.

Lemma cosineSim_of_normalized_is_cosine_witness :
  cosineSim (JsVec (normalizeInPlace [3; 4])) (JsVec (normalizeInPlace [1; 0]))
            (fresh None None)
  = (Normal (dot_product [3; 4] [1; 0] / (norm2 [3; 4] * norm2 [1; 0])),
     fresh None None).
Proof.
  apply (cosineSim_of_normalized_is_cosine [3; 4] [1; 0] (fresh None None)).
  - reflexivity.
  - rewrite norm2_3_4. lra.
  - rewrite norm2_1_0. lra.
Defined.

(** X11: on raw vectors of one length the score is bounded by the product
    of the norms (Cauchy-Schwarz); a zero vector scores 0 against
    everything. *)
Theorem cosineSim_cauchy_schwarz (a b : list R) (w : World R) :
  length a = length b ->
  exists s : R,
    cosineSim (JsVec a) (JsVec b) w = (Normal s, w) /\
    Rabs s <= norm2 a * norm2 b.
Proof.
  intros Hl. exists (dot_product a b).
  split; [apply cosineSim_exact, Hl|].
  destruct (Req_dec (norm2 a) 0) as [Ha|Ha].
  { rewrite (dot_product_zero_l a b) by (apply norm2_zero_all_zero, Ha).
    rewrite Ha, Rabs_R0. lra. }
  destruct (Req_dec (norm2 b) 0) as [Hb|Hb].
  { rewrite dot_product_comm.
    rewrite (dot_product_zero_l b a) by (apply norm2_zero_all_zero, Hb).
    rewrite Hb, Rabs_R0. lra. }
  pose proof (norm2_pos a Ha) as Hpa. pose proof (norm2_pos b Hb) as Hpb.
  set (a' := map (fun x => x * (1 / norm2 a)) a).
  set (b' := map (fun x => x * (1 / norm2 b)) b).
  assert (Hl' : length a' = length b')
    by (unfold a', b'; rewrite !length_map; exact Hl).
  destruct (dot_product_sub_sq a' b' Hl') as [H1 H2].
  assert (Haa : dot_product a' a' = 1).
  { apply norm2_one. unfold a'. rewrite <- (inv_norm_nonzero a Ha).
    rewrite <- normalize_exact. apply norm2_normalized, Ha. }
  assert (Hbb : dot_product b' b' = 1).
  { apply norm2_one. unfold b'. rewrite <- (inv_norm_nonzero b Hb).
    rewrite <- normalize_exact. apply norm2_normalized, Hb. }
  assert (Hab : dot_product a b
                = dot_product a' b' * (norm2 a * norm2 b)).
  { unfold a', b'. rewrite dot_product_scale_two. field. split; assumption. }
  rewrite Haa, Hbb in H1, H2. rewrite Hab.
  set (y := dot_product a' b') in *.
  assert (Hp : 0 < norm2 a * norm2 b) by (apply Rmult_lt_0_compat; assumption).
  set (p := norm2 a * norm2 b) in *.
  assert (Hy : -1 <= y <= 1) by lra.
  apply Rabs_le. split; nra.
Qed.

Lemma cosineSim_cauchy_schwarz_witness :
  exists s : R,
    cosineSim (JsVec [3; 4]) (JsVec [1; 0]) (fresh None None)
    = (Normal s, fresh None None) /\
    Rabs s <= norm2 [3; 4] * norm2 [1; 0].
Proof.
  apply (cosineSim_cauchy_schwarz [3; 4] [1; 0] (fresh None None)).
  reflexivity.
Defined.

End ScorerAndNormaliser.

(** ** Further properties: NaN in the arithmetic of the browser *)

Section Binary64NaN.

Lemma binary64_mul_nan (x : float) : (x * nan)%float = nan.
Proof.
  apply Prim2SF_inj. rewrite mul_spec.
  change (Prim2SF nan) with S754_nan.
  destruct (Prim2SF x); reflexivity.
Qed.

Lemma binary64_add_nan_r (x : float) : (x + nan)%float = nan.
Proof.
  apply Prim2SF_inj. rewrite add_spec.
  change (Prim2SF nan) with S754_nan.
  destruct (Prim2SF x); reflexivity.
Qed.

Lemma binary64_add_nan_l (x : float) : (nan + x)%float = nan.
Proof.
  apply Prim2SF_inj. rewrite add_spec.
  change (Prim2SF nan) with S754_nan. reflexivity.
Qed.

Lemma binary64_sub_nan_r (x : float) : (x - nan)%float = nan.
Proof.
  apply Prim2SF_inj. rewrite sub_spec.
  change (Prim2SF nan) with S754_nan.
  destruct (Prim2SF x); reflexivity.
Qed.

Lemma binary64_sum_nan_stays (v : list float) :
  fold_left (fun sum x => (sum + x * x)%float) v nan = nan.
Proof.
  induction v as [|x v IH]; [reflexivity|].
  cbn [fold_left]. rewrite binary64_add_nan_l. exact IH.
Qed.

Lemma binary64_sum_nan (v : list float) :
  nan ∈ v ->
  forall s : float, fold_left (fun sum x => (sum + x * x)%float) v s = nan.
Proof.
  induction v as [|x v IH]; intros Hin s.
  - apply elem_of_nil in Hin. contradiction.
  - cbn [fold_left]. apply elem_of_cons in Hin as [<- | Hin].
    + rewrite binary64_mul_nan, binary64_add_nan_r.
      apply binary64_sum_nan_stays.
    + apply IH, Hin.
Qed.

(** X12: in doubles, a NaN anywhere in the raw embedding switches the
    normalisation off: the sum of squares is NaN, [sum > 0] is false, and
    the array is returned as it came, unnormalised. *)
Theorem binary64_nan_disables_normalization (v : list float) :
  nan ∈ v -> sum_squares v = nan /\ normalizeInPlace v = v.
Proof.
  intros Hin.
  assert (Hs : sum_squares v = nan).
  { rewrite sum_squares_fold. exact (binary64_sum_nan v Hin 0%float). }
  split; [exact Hs|]. unfold normalizeInPlace. rewrite Hs. reflexivity.
Qed.

Lemma binary64_nan_disables_normalization_witness :
  sum_squares [3; nan; 4]%float = nan /\
  normalizeInPlace [3; nan; 4]%float = [3; nan; 4]%float.
Proof.
  apply (binary64_nan_disables_normalization [3; nan; 4]%float).
  repeat constructor.
Defined.

(** X13: [clamp] does not sanitise NaN: a NaN [originX] reaches [drawImage]
    as a NaN source x and a NaN source width. *)
Theorem binary64_crop_nan_origin (videoEl : VideoEl) (box : Box float) :
  originX box = nan ->
  vx (source_rect videoEl box) = nan /\ vw (source_rect videoEl box) = nan.
Proof.
  intros Hx. unfold source_rect, clamp. cbn. rewrite Hx.
  assert (Hmin : forall hi : float, Binary64Crop.min hi nan = nan).
  { intros hi. unfold Binary64Crop.min.
    change (is_nan nan) with true. rewrite orb_true_r. reflexivity. }
  assert (Hmax : forall lo : float, Binary64Crop.max lo nan = nan).
  { intros lo. unfold Binary64Crop.max.
    change (is_nan nan) with true. rewrite orb_true_r. reflexivity. }
  rewrite Hmin, Hmax. split; [reflexivity|].
  rewrite binary64_sub_nan_r.
  replace (Binary64Crop.min nan (width box)) with nan by reflexivity.
  apply Hmax.
Qed.

Lemma binary64_crop_nan_origin_witness :
  vx (source_rect {| videoWidth := 640; videoHeight := 480 |}
        {| originX := nan; originY := 10; width := 100; height := 50 |}%float)
  = nan /\
  vw (source_rect {| videoWidth := 640; videoHeight := 480 |}
        {| originX := nan; originY := 10; width := 100; height := 50 |}%float)
  = nan.
Proof.
  apply (binary64_crop_nan_origin {| videoWidth := 640; videoHeight := 480 |}
           {| originX := nan; originY := 10; width := 100; height := 50 |}%float).
  reflexivity.
Defined.

End Binary64NaN.

(** ** Further properties: the crop rectangle *)

Section CropRectangle.

Local Open Scope R_scope.

Lemma clamp_exact (v lo hi : R) : clamp v lo hi = Rmax lo (Rmin hi v).
Proof. reflexivity. Qed.

(** X14: with bounds in order, [clamp] lands between them and leaves a
    value already between them alone. *)
Theorem clamp_within_bounds (v lo hi : R) :
  lo <= hi ->
  lo <= clamp v lo hi <= hi /\ (lo <= v <= hi -> clamp v lo hi = v).
Proof.
  intros Hb. rewrite clamp_exact. unfold Rmax, Rmin.
  repeat destruct (Rle_dec _ _); split; lra.
Qed.

Lemma clamp_within_bounds_witness :
  0 <= clamp 700 0 640 <= 640 /\ (0 <= 700 <= 640 -> clamp 700 0 640 = 700).
Proof.
  apply (clamp_within_bounds 700 0 640). lra.
Defined.

(** X15: with the bounds crossed, [clamp] returns the lower bound, whatever
    the value: the result is above the upper bound. *)
Theorem clamp_crossed_bounds (v lo hi : R) :
  hi < lo -> clamp v lo hi = lo.
Proof.
  intros Hb. rewrite clamp_exact. unfold Rmax, Rmin.
  repeat destruct (Rle_dec _ _); lra.
Qed.

Lemma clamp_crossed_bounds_witness : clamp 5 1 0 = 1.
Proof.
  apply (clamp_crossed_bounds 5 1 0). lra.
Defined.

Lemma video_size_nonneg (n : N) : 0 <= IZR (Z.of_N n).
Proof.
  apply IZR_le. apply N2Z.is_nonneg.
Qed.

(** X16: whatever the box, [cropToCanvasFromVideo] clears the whole
    offscreen canvas and draws onto all of it from a source rectangle that
    starts inside the frame and is at least one pixel wide and high; the
    rectangle ends inside the frame whenever it starts at least one pixel
    before the right and bottom edges. *)
Theorem crop_source_rectangle (videoEl : VideoEl) (box : Box R)
        (ctx : list (CtxCall R)) :
  exists r : SrcRect R,
    cropToCanvasFromVideo videoEl box ctx
    = ctx ++ [ClearRect 0 0 224 224;
              DrawImage (vx r) (vy r) (vw r) (vh r) 0 0 224 224] /\
    0 <= vx r <= IZR (Z.of_N (videoWidth videoEl)) /\
    0 <= vy r <= IZR (Z.of_N (videoHeight videoEl)) /\
    1 <= vw r /\ 1 <= vh r /\
    (vx r + 1 <= IZR (Z.of_N (videoWidth videoEl)) ->
     vx r + vw r <= IZR (Z.of_N (videoWidth videoEl))) /\
    (vy r + 1 <= IZR (Z.of_N (videoHeight videoEl)) ->
     vy r + vh r <= IZR (Z.of_N (videoHeight videoEl))).
Proof.
  exists (source_rect videoEl box). split; [reflexivity|].
  pose proof (video_size_nonneg (videoWidth videoEl)) as HW.
  pose proof (video_size_nonneg (videoHeight videoEl)) as HH.
  unfold source_rect. cbn -[Z.of_N]. rewrite ?clamp_exact.
  set (W := IZR (Z.of_N (videoWidth videoEl))) in *.
  set (Hh := IZR (Z.of_N (videoHeight videoEl))) in *.
  unfold Rmax, Rmin. repeat destruct (Rle_dec _ _); repeat split; lra.
Qed.

(** X17: a box that lies inside the frame and is at least one pixel wide
    and high is used as it is. *)
Theorem crop_keeps_box_inside_frame (videoEl : VideoEl) (box : Box R) :
  0 <= originX box -> 0 <= originY box ->
  1 <= width box -> 1 <= height box ->
  originX box + width box <= IZR (Z.of_N (videoWidth videoEl)) ->
  originY box + height box <= IZR (Z.of_N (videoHeight videoEl)) ->
  source_rect videoEl box
  = {| vx := originX box; vy := originY box;
       vw := width box; vh := height box |}.
Proof.
  intros Hx Hy Hw Hh HW HH.
  unfold source_rect. cbn -[Z.of_N]. rewrite ?clamp_exact.
  set (W := IZR (Z.of_N (videoWidth videoEl))) in *.
  set (Hv := IZR (Z.of_N (videoHeight videoEl))) in *.
  unfold Rmax, Rmin. repeat destruct (Rle_dec _ _); f_equal; lra.
Qed.

Lemma crop_keeps_box_inside_frame_witness :
  source_rect {| videoWidth := 640; videoHeight := 480 |}
              {| originX := 10; originY := 20; width := 100; height := 50 |}
  = {| vx := 10; vy := 20; vw := 100; vh := 50 |}.
Proof.
  apply (crop_keeps_box_inside_frame
           {| videoWidth := 640; videoHeight := 480 |}
           {| originX := 10; originY := 20; width := 100; height := 50 |});
    cbn; lra.
Defined.

(** X18: a box that starts less than one pixel before the right edge of
    the frame, or beyond it, gives a source rectangle one pixel wide that
    ends outside the frame. *)
Theorem crop_past_right_edge (videoEl : VideoEl) (box : Box R) :
  IZR (Z.of_N (videoWidth videoEl)) - 1 < originX box ->
  vw (source_rect videoEl box) = 1 /\
  IZR (Z.of_N (videoWidth videoEl))
  < vx (source_rect videoEl box) + vw (source_rect videoEl box).
Proof.
  intros Hx. pose proof (video_size_nonneg (videoWidth videoEl)) as HW.
  unfold source_rect. cbn -[Z.of_N]. rewrite ?clamp_exact.
  set (W := IZR (Z.of_N (videoWidth videoEl))) in *.
  unfold Rmax, Rmin. repeat destruct (Rle_dec _ _); split; lra.
Qed.

Lemma crop_past_right_edge_witness :
  vw (source_rect {| videoWidth := 640; videoHeight := 480 |}
        {| originX := 640; originY := 20; width := 100; height := 50 |}) = 1 /\
  IZR (Z.of_N 640)
  < vx (source_rect {| videoWidth := 640; videoHeight := 480 |}
          {| originX := 640; originY := 20; width := 100; height := 50 |})
    + vw (source_rect {| videoWidth := 640; videoHeight := 480 |}
            {| originX := 640; originY := 20; width := 100; height := 50 |}).
Proof.
  apply (crop_past_right_edge
           {| videoWidth := 640; videoHeight := 480 |}
           {| originX := 640; originY := 20; width := 100; height := 50 |}).
  cbn. lra.
Defined.

End CropRectangle.

(** ** Further properties: the server configuration *)

Section ServerConfig.

(** X19: [BACKEND_URL] is never the empty string: an absent [window], an
    absent or an empty [window.BACKEND_URL] all fall back to the origin
    followed by [/api]. *)
Theorem BACKEND_URL_not_empty (window : option (option string))
        (origin : string) :
  BACKEND_URL window origin <> "" /\
  (window = None \/ window = Some None \/ window = Some (Some "") ->
   BACKEND_URL window origin = origin +:+ "/api").
Proof.
  assert (Hfb : origin +:+ "/api" <> "").
  { destruct origin; cbn; discriminate. }
  split.
  - unfold BACKEND_URL. destruct window as [[url|]|]; try exact Hfb.
    case_bool_decide; [exact Hfb | assumption].
  - intros [-> | [-> | ->]]; reflexivity.
Qed.

(** X20: [loadServerConfig] never throws, and unless the response parses
    to an object both settings keep the values they had: a failed request,
    a body that is not JSON, [null], an array, a string or a number change
    nothing. *)
Theorem loadServerConfig_failure_keeps_settings
        (fetch_ : string -> Completion Response) (url : string)
        (st : Settings) :
  exists st' : Settings,
    loadServerConfig fetch_ url st = (Normal tt, st') /\
    ((forall res fields,
         fetch_ (url +:+ "/config") = Normal res ->
         res_json res <> Normal (VObj fields)) ->
     st' = st).
Proof.
  exists (loadServerConfig fetch_ url st).2. split.
  - unfold loadServerConfig.
    destruct (loadServerConfig_try fetch_ url st) as [[[]|e] st'];
      reflexivity.
  - intros Hno. unfold loadServerConfig, loadServerConfig_try.
    destruct (fetch_ (url +:+ "/config")) as [res|e]; [|reflexivity].
    destruct (res_json res) as [cfg|e] eqn:Hjson; [|reflexivity].
    destruct cfg; try reflexivity.
    exfalso. exact (Hno res fields eq_refl Hjson).
Qed.

Lemma loadServerConfig_object
      (fetch_ : string -> Completion Response) (url : string)
      (st : Settings) (res : Response) (fields : gmap string JsValue) :
  fetch_ (url +:+ "/config") = Normal res ->
  res_json res = Normal (VObj fields) ->
  loadServerConfig fetch_ url st
  = (Normal tt,
     {| RADIUS_KM := match fields !! "RADIUS_KM" with
                     | Some v => if defined v then v else RADIUS_KM st
                     | None => RADIUS_KM st
                     end;
        CITY_NAME := match fields !! "CITY_NAME" with
                     | Some v => if defined v then v else CITY_NAME st
                     | None => CITY_NAME st
                     end |}).
Proof.
  intros Hf Hj. unfold loadServerConfig, loadServerConfig_try.
  rewrite Hf, Hj. cbn. destruct st as [r c].
  destruct (fields !! "RADIUS_KM") as [v1|], (fields !! "CITY_NAME") as [v2|];
    cbn; repeat case_match; reflexivity.
Qed.

(** X21: from an object response, each setting takes the value of its key
    when the key is there, whatever the value ([null] and values of the
    wrong type included), and keeps its old value when the key is absent;
    every other key is ignored. *)
Theorem loadServerConfig_updates_present_keys
        (fetch_ : string -> Completion Response) (url : string)
        (st : Settings) (res : Response) (fields : gmap string JsValue) :
  fetch_ (url +:+ "/config") = Normal res ->
  res_json res = Normal (VObj fields) ->
  exists st' : Settings,
    loadServerConfig fetch_ url st = (Normal tt, st') /\
    (fields !! "RADIUS_KM" = None -> RADIUS_KM st' = RADIUS_KM st) /\
    (forall v, fields !! "RADIUS_KM" = Some v -> v <> VUndefined ->
               RADIUS_KM st' = v) /\
    (fields !! "CITY_NAME" = None -> CITY_NAME st' = CITY_NAME st) /\
    (forall v, fields !! "CITY_NAME" = Some v -> v <> VUndefined ->
               CITY_NAME st' = v).
Proof.
  intros Hf Hj. eexists. split; [exact (loadServerConfig_object _ _ st _ _ Hf Hj)|].
  cbn. repeat split.
  - intros ->. reflexivity.
  - intros v -> Hv. destruct v; cbn; congruence.
  - intros ->. reflexivity.
  - intros v -> Hv. destruct v; cbn; congruence.
Qed.

(** A server that answers [{"RADIUS_KM": null, "debug": true}]. *)
Lemma loadServerConfig_updates_present_keys_witness :
  exists st' : Settings,
    loadServerConfig
      (fun _ => Normal {| res_json :=
         Normal (VObj (<["RADIUS_KM" := VNull]> (<["debug" := VBool true]> ∅))) |})
      "http://localhost/api" fallback = (Normal tt, st') /\
    RADIUS_KM st' = VNull /\ CITY_NAME st' = VStr "Forlì".
Proof.
  destruct (loadServerConfig_updates_present_keys
              (fun _ => Normal {| res_json :=
                 Normal (VObj (<["RADIUS_KM" := VNull]>
                                 (<["debug" := VBool true]> ∅))) |})
              "http://localhost/api" fallback _ _ eq_refl eq_refl)
    as (st' & Hrun & _ & Hr & Hc & _).
  exists st'. split; [exact Hrun|]. split.
  - apply Hr; [reflexivity | discriminate].
  - apply Hc. reflexivity.
Defined.

(** X22: loading twice from a server that answers the same is loading
    once. *)
Theorem loadServerConfig_idempotent
        (fetch_ : string -> Completion Response) (url : string)
        (st : Settings) :
  loadServerConfig fetch_ url (loadServerConfig fetch_ url st).2
  = loadServerConfig fetch_ url st.
Proof.
  destruct (fetch_ (url +:+ "/config")) as [res|e] eqn:Hf.
  - destruct (res_json res) as [cfg|e] eqn:Hj.
    + destruct cfg;
        try (unfold loadServerConfig, loadServerConfig_try;
             rewrite Hf, Hj; reflexivity).
      rewrite !(loadServerConfig_object fetch_ url _ res fields Hf Hj). cbn.
      destruct (fields !! "RADIUS_KM") as [v1|], (fields !! "CITY_NAME") as [v2|];
        repeat case_match; reflexivity.
    + unfold loadServerConfig, loadServerConfig_try.
      rewrite Hf, Hj. reflexivity.
  - unfold loadServerConfig, loadServerConfig_try. rewrite Hf. reflexivity.
Qed.

End ServerConfig.
